(** * Maestro sample programs: record lifecycle, comparator ordering and
      the calculator helpers

    A shallow embedding of

    - [tools/convert_tests/scenarios/c_to_cpp_basic/source_repo/main.c]
      and [item.h] (the [Item] record, [create_item], [print_item],
      [free_item], [compare_items] and the [qsort] call of [main]);
    - [sample_project/math_utils.cpp] ([math_utils::divide]);
    - [tools/convert_tests/scenarios/cpp_to_c_lowering_basic/source_repo/main.cpp]
      ([Calculator::divide], [Calculator::getSequence]).

    Conventions.  A C [int] is a [Z] in the range [INT_MIN .. INT_MAX];
    arithmetic on [int] wraps around modulo [2^32] (what the usual
    two's-complement targets do on signed overflow).  A [char] is an
    [ascii], a [char] buffer a [list ascii].  A [float] or [double] is a
    [spec_float] (the IEEE-754 data of the Standard Library) in the
    binary32 or binary64 format.  The heap is a finite map from locations
    to [Item]s; code with effects is written in a small state-and-fault
    monad over the heap and the text written to standard output. *)

From Stdlib Require Import ZArith Lia List Ascii String DecimalString.
From Stdlib Require Import Floats.SpecFloat.
From stdpp Require Import base gmap list strings sorting.

Local Open Scope Z_scope.

(** ** Machine integers *)

Module Int.

Definition INT_MIN : Z := - 2 ^ 31.
Definition INT_MAX : Z := 2 ^ 31 - 1.

(** The values an [int] variable can hold. *)
Definition is_int (z : Z) : Prop := INT_MIN <= z <= INT_MAX.

(** Reduction of a mathematical integer to the [int] it wraps to. *)
Definition wrap (z : Z) : Z := (z + 2 ^ 31) mod 2 ^ 32 - 2 ^ 31.

Definition add (a b : Z) : Z := wrap (a + b).
Definition sub (a b : Z) : Z := wrap (a - b).
Definition neg (a : Z) : Z := wrap (- a).
Definition mul (a b : Z) : Z := wrap (a * b).

End Int.

(** ** Characters and C strings *)

Definition NUL : ascii := Ascii.zero.

(** [strlen]: the number of characters before the first [NUL].  The end of
    the list stands for the end of what can be read through the pointer,
    so a list without [NUL] is read as if a terminator followed it. *)
Fixpoint strlen (s : list ascii) : nat :=
  match s with
  | [] => 0%nat
  | c :: s' => if Ascii.eqb c NUL then 0%nat else S (strlen s')
  end.

(** The [n] bytes [strncpy(dst, src, n)] writes: the characters of [src]
    up to its terminator or up to [n] of them, then [NUL]s until [n] bytes
    are written. *)
Fixpoint strncpy_bytes (src : list ascii) (n : nat) {struct n} : list ascii :=
  match n with
  | O => []
  | S n' =>
      match src with
      | [] => replicate n NUL
      | c :: src' =>
          if Ascii.eqb c NUL then replicate n NUL
          else c :: strncpy_bytes src' n'
      end
  end.

(** [strncpy(dst, src, n)]: the first [n] bytes of [dst] are overwritten,
    the rest of [dst] is untouched. *)
Definition strncpy (dst src : list ascii) (n : nat) : list ascii :=
  strncpy_bytes src n ++ drop n dst.

(** ** Floating point

    [float] is binary32 and [double] is binary64. *)

Definition float_of_double (x : spec_float) : spec_float :=
  match x with
  | S754_finite s m e => binary_round 24 128 s m e
  | _ => x
  end.

(** The default argument promotion of a [float] passed to [printf]. *)
Definition double_of_float (x : spec_float) : spec_float :=
  match x with
  | S754_finite s m e => binary_round 53 1024 s m e
  | _ => x
  end.

(** A decimal literal [m * 2^e] of type [double], such as [42.5]. *)
Definition double_lit (m e : Z) : spec_float := binary_normalize 53 1024 m e false.

(** A literal with the [f] suffix, such as [3.0f]. *)
Definition float_lit (m e : Z) : spec_float := binary_normalize 24 128 m e false.

(** [b != 0] on doubles: true also when [b] is a NaN. *)
Definition double_ne (x y : spec_float) : bool := negb (SFeqb x y).

Definition double_zero : spec_float := S754_zero false.

Definition double_div (a b : spec_float) : spec_float := SFdiv 53 1024 a b.

(** ** [printf] conversions *)

(** [%d] *)
Definition fmt_d (z : Z) : string := NilZero.string_of_int (Z.to_int z).

(** [%s]: the characters of the buffer up to its terminator. *)
Definition fmt_s (buf : list ascii) : string :=
  string_of_list_ascii (take (strlen buf) buf).

(** The integer nearest to [num / den] ([den > 0]), ties to even. *)
Definition round_half_even (num den : Z) : Z :=
  let q := num / den in
  let r := num mod den in
  match 2 * r ?= den with
  | Lt => q
  | Gt => q + 1
  | Eq => if Z.even q then q else q + 1
  end.

(** The absolute value of a finite number [m * 2^e] in hundredths,
    rounded to nearest. *)
Definition hundredths (m : positive) (e : Z) : Z :=
  match e with
  | Zneg p => round_half_even (Zpos m * 100) (2 ^ Zpos p)
  | _ => Zpos m * 2 ^ e * 100
  end.

Definition two_digits (z : Z) : string :=
  if z <? 10 then "0" +:+ fmt_d z else fmt_d z.

Definition fixed2 (h : Z) : string :=
  fmt_d (h / 100) +:+ "." +:+ two_digits (h mod 100).

Definition sign_text (s : bool) : string := if s then "-" else "".

(** [%.2f] of a [double]. *)
Definition fmt_2f (x : spec_float) : string :=
  match x with
  | S754_zero s => sign_text s +:+ "0.00"
  | S754_infinity s => sign_text s +:+ "inf"
  | S754_nan => "nan"
  | S754_finite s m e => sign_text s +:+ fixed2 (hundredths m e)
  end.

(** ** The record type ([item.h], lines 5-9) *)

(** [sizeof(item->name)]: the capacity of the [name] array. *)
Definition NAME_SIZE : nat := 50.

Record Item := mkItem {
  id : Z;               (* int id;        *)
  name : list ascii;    (* char name[50]; *)
  value : spec_float    (* float value;   *)
}.

(** The typing invariant of the [name] array: exactly [NAME_SIZE] bytes. *)
Definition wf_name (it : Item) : Prop := length (name it) = NAME_SIZE.

(** ** Heap, output and the monad of effects *)

Inductive pointer := NULL | Addr (l : positive).

Record world := mkWorld {
  heap : gmap positive Item;   (* the live [Item] blocks *)
  stdout : string              (* the text written so far *)
}.

(** A computation either faults ([None]: a dereference or release of
    storage that is not live) or returns a result and the next world. *)
Definition M (A : Type) : Type := world -> option (A * world).

Definition ret {A} (a : A) : M A := fun w => Some (a, w).

Definition bind {A B} (c : M A) (k : A -> M B) : M B :=
  fun w => match c w with
           | Some (a, w') => k a w'
           | None => None
           end.

(** The monad is registered with stdpp, whose notations [x ← c; k] and
    [c ;; k] are used below. *)
#[global] Instance M_ret : MRet M := @ret.
#[global] Instance M_bind : MBind M := fun A B k c => bind c k.

(** [malloc(sizeof(Item))].  The allocator is outside the program: [alloc]
    is its answer, [None] when it has no storage and [Some junk] when it
    hands out a fresh block whose indeterminate contents are [junk]. *)
Definition malloc (alloc : option Item) : M pointer :=
  fun w =>
    match alloc with
    | None => Some (NULL, w)
    | Some junk =>
        let l := fresh (dom (heap w)) in
        Some (Addr l, mkWorld (<[l := junk]> (heap w)) (stdout w))
    end.

(** Read of the block at [l]. *)
Definition load (l : positive) : M Item :=
  fun w => match heap w !! l with
           | Some it => Some (it, w)
           | None => None
           end.

(** Assignment through [item->field]. *)
Definition update (l : positive) (f : Item -> Item) : M unit :=
  fun w => match heap w !! l with
           | Some it => Some (tt, mkWorld (<[l := f it]> (heap w)) (stdout w))
           | None => None
           end.

(** [free(p)] for a non-null [p]. *)
Definition free (l : positive) : M unit :=
  fun w => match heap w !! l with
           | Some _ => Some (tt, mkWorld (delete l (heap w)) (stdout w))
           | None => None
           end.

Definition printf (text : string) : M unit :=
  fun w => Some (tt, mkWorld (heap w) (stdout w +:+ text)).

(** [*p] *)
Definition deref (p : pointer) : M Item :=
  match p with
  | NULL => fun _ => None
  | Addr l => load l
  end.

(** ** [create_item] ([main.c], lines 47-56) *)

Definition set_id (v : Z) (it : Item) : Item := mkItem v (name it) (value it).
Definition set_name (f : list ascii -> list ascii) (it : Item) : Item :=
  mkItem (id it) (f (name it)) (value it).
Definition set_value (v : spec_float) (it : Item) : Item :=
  mkItem (id it) (name it) v.

Definition create_item (alloc : option Item)
    (id_ : Z) (name_ : list ascii) (value_ : spec_float) : M pointer :=
  item ← malloc alloc;
  match item with
  | Addr l =>
      update l (set_id id_) ;;
      update l (set_name (fun dst => strncpy dst name_ (NAME_SIZE - 1))) ;;
      update l (set_name (fun dst => <[(NAME_SIZE - 1)%nat := NUL]> dst)) ;;
      update l (set_value value_) ;;
      mret item
  | NULL => mret item
  end.

(** ** [print_item] ([main.c], lines 58-62) *)

(** The line feed. *)
Definition newline : string := String "010"%char "".

(** The text of ["ID: %d, Name: %s, Value: %.2f\n"] for a record. *)
Definition item_line (it : Item) : string :=
  "ID: " +:+ fmt_d (id it) +:+ ", Name: " +:+ fmt_s (name it) +:+
  ", Value: " +:+ fmt_2f (double_of_float (value it)) +:+ newline.

Definition print_item (item : pointer) : M unit :=
  match item with
  | Addr l => it ← load l; printf (item_line it)
  | NULL => mret tt
  end.

(** ** [free_item] ([main.c], lines 64-68) *)

Definition free_item (item : pointer) : M unit :=
  match item with
  | Addr l => free l
  | NULL => mret tt
  end.

(** [n] copies of a text, one after the other. *)
Fixpoint copies (n : nat) (text : string) : string :=
  match n with
  | O => ""
  | S n' => text +:+ copies n' text
  end.

(** [n] calls of the same computation in a row. *)
Fixpoint times (n : nat) (c : M unit) : M unit :=
  match n with
  | O => mret tt
  | S n' => c ;; times n' c
  end.

(** ** The comparator ([main.c], lines 70-74)

    [compare_items] receives two [const void*], casts them to
    [const Item*] and subtracts the [id] fields.  The model takes the two
    records the pointers refer to. *)
Definition compare_items (item_a item_b : Item) : Z :=
  Int.sub (id item_a) (id item_b).

(** ** Sample data *)

(** The world at program start: nothing allocated, nothing printed. *)
Definition empty_world : world := mkWorld ∅ "".

(** A block of the right size with arbitrary former contents. *)
Definition junk_block : Item :=
  mkItem 77 (replicate NAME_SIZE "x"%char) S754_nan.

(** A world with one live record, at address 1. *)
Definition one_block_world : world := mkWorld {[1%positive := junk_block]} "".

(** The name of Scenario C, 58 characters long. *)
Definition long_name : list ascii :=
  list_ascii_of_string "ThisNameIsDefinitelyLongerThanTheFixedCapacityLimitForSure".

(** The arguments of the first call in [main]: [1], ["Test Item"] and the
    [double] literal [42.5 = 85 * 2^-1] converted to [float]. *)
Definition test_name : list ascii := list_ascii_of_string "Test Item".
Definition test_value : spec_float := float_of_double (double_lit 85 (-1)).

(** Two records on which the subtraction overflows. *)
Definition item_min : Item := mkItem Int.INT_MIN (replicate NAME_SIZE NUL) (S754_zero false).
Definition item_one : Item := mkItem 1 (replicate NAME_SIZE NUL) (S754_zero false).

(** Two records that the comparator puts in the wrong order. *)
Definition item_max : Item := mkItem Int.INT_MAX (replicate NAME_SIZE NUL) (S754_zero false).
Definition item_neg : Item := mkItem (-1) (replicate NAME_SIZE NUL) (S754_zero false).

(** ** Sorting ([main.c], lines 27-33)

    [qsort] belongs to the C library.  It is a comparison sort that puts
    [a] before [b] when [compar(a, b) <= 0]; the model is the merge sort
    of stdpp driven by that test. *)
Definition comes_first (compar : Item -> Item -> Z) (a b : Item) : Prop :=
  compar a b <= 0.

#[global] Instance comes_first_dec compar a b : Decision (comes_first compar a b) :=
  Z_le_dec (compar a b) 0.

Definition qsort (compar : Item -> Item -> Z) (base : list Item) : list Item :=
  merge_sort (comes_first compar) base.

(** The array part of [main]: three records are created, copied into
    [items] and sorted.  [a0 a1 a2] are the allocator's three answers. *)
Definition main_items (a0 a1 a2 : option Item) : M (list Item) :=
  p0 ← create_item a0 3 (list_ascii_of_string "Third") (float_lit 3 0);
  i0 ← deref p0;
  p1 ← create_item a1 1 (list_ascii_of_string "First") (float_lit 1 0);
  i1 ← deref p1;
  p2 ← create_item a2 2 (list_ascii_of_string "Second") (float_lit 2 0);
  i2 ← deref p2;
  mret (qsort compare_items [i0; i1; i2]).

(** [print_item(&items[i])] ([main.c], line 37).  [items] is an array of
    [main]'s frame, not a heap block, and the address of one of its
    elements is never null: the guard of [print_item] passes and the line
    of the element is printed. *)
Definition print_item_at (it : Item) : M unit := printf (item_line it).

(** The loop [for (i = 0; i < 3; i++) print_item(&items[i])] over the
    elements of the array. *)
Fixpoint print_items (items : list Item) : M unit :=
  match items with
  | [] => mret tt
  | it :: rest => print_item_at it ;; print_items rest
  end.

(** [main] of [main.c] (lines 19-44).  [a] is the allocator's answer to
    the first [create_item], [a0 a1 a2] its answers to the three calls
    that fill the array; the result is the exit status. *)
Definition main (a a0 a1 a2 : option Item) : M Z :=
  printf ("C to C++ Conversion Test" +:+ newline) ;;
  my_item ← create_item a 1 test_name test_value;
  print_item my_item ;;
  items ← main_items a0 a1 a2;
  printf (newline +:+ "Sorted items:" +:+ newline) ;;
  print_items items ;;
  free_item my_item ;;
  mret 0.

(** What [main] prints when every allocation succeeds. *)
Definition main_output : string :=
  "C to C++ Conversion Test" +:+ newline +:+
  "ID: 1, Name: Test Item, Value: 42.50" +:+ newline +:+
  newline +:+ "Sorted items:" +:+ newline +:+
  "ID: 1, Name: First, Value: 1.00" +:+ newline +:+
  "ID: 2, Name: Second, Value: 2.00" +:+ newline +:+
  "ID: 3, Name: Third, Value: 3.00" +:+ newline.

(** The same without the line of [my_item]. *)
Definition main_output_no_item : string :=
  "C to C++ Conversion Test" +:+ newline +:+
  newline +:+ "Sorted items:" +:+ newline +:+
  "ID: 1, Name: First, Value: 1.00" +:+ newline +:+
  "ID: 2, Name: Second, Value: 2.00" +:+ newline +:+
  "ID: 3, Name: Third, Value: 3.00" +:+ newline.

(** The contents of a record after [create_item]: the id, the name cut
    at 49 characters and padded with [NUL] to [NAME_SIZE] bytes, and the
    value. *)
Definition stored_item (id_ : Z) (name_ : list ascii) (value_ : spec_float) : Item :=
  mkItem id_ (strncpy_bytes name_ (NAME_SIZE - 1) ++ [NUL]) value_.

(** The address [malloc] hands out in world [w], and the world after a
    successful [create_item] that left the record [it] there. *)
Definition addr_of (w : world) : positive := fresh (dom (heap w)).
Definition alloc_world (it : Item) (w : world) : world :=
  mkWorld (<[addr_of w := it]> (heap w)) (stdout w).

(** The typing invariant on an answer of the allocator. *)
Definition wf_alloc (a : option Item) : Prop :=
  forall junk, a = Some junk -> wf_name junk.

(** The four records [main] creates. *)
Definition test_item : Item := stored_item 1 test_name test_value.
Definition third_item : Item :=
  stored_item 3 (list_ascii_of_string "Third") (float_lit 3 0).
Definition first_item : Item :=
  stored_item 1 (list_ascii_of_string "First") (float_lit 1 0).
Definition second_item : Item :=
  stored_item 2 (list_ascii_of_string "Second") (float_lit 2 0).

(** The lines [print_items] writes. *)
Fixpoint items_text (items : list Item) : string :=
  match items with
  | [] => ""
  | it :: rest => item_line it +:+ items_text rest
  end.

(** Sample records with non-negative ids, and two blocks with different
    former contents. *)
Definition item_a : Item := mkItem 7 (replicate NAME_SIZE NUL) (S754_zero false).
Definition item_b : Item := mkItem 3 (replicate NAME_SIZE NUL) S754_nan.
Definition junk_block' : Item :=
  mkItem (-5) (replicate NAME_SIZE "y"%char) (S754_infinity true).

(** Non-decreasing [id]s from left to right. *)
Definition ids_nondecreasing (l : list Item) : Prop :=
  Sorted Z.le (map id l).

(** ** [math_utils::divide] ([math_utils.cpp], lines 13-19) *)

(** A thrown [std::runtime_error] with its [what()] text. *)
Inductive exception := runtime_error (what : string).

Module math_utils.

(** [add] and [multiply] ([math_utils.cpp], lines 5-11) *)
Definition add (a b : Z) : Z := Int.add a b.
Definition multiply (a b : Z) : Z := Int.mul a b.

(** The result is the thrown exception or the returned [double]. *)
Definition divide (a b : spec_float) : exception + spec_float :=
  if double_ne b double_zero then inr (double_div a b)
  else inl (runtime_error "Division by zero").

End math_utils.

(** ** [Calculator] ([main.cpp], lines 24-39) *)

Module Calculator.

(** [std::endl] *)
Definition endl : string := String "010"%char "".

(** [add] and [multiply] ([main.cpp], lines 16-22) *)
Definition add (a b : Z) : Z := Int.add a b.
Definition multiply (a b : Z) : Z := Int.mul a b.

(** The returned [double] and the text written to [std::cerr]. *)
Definition divide (a b : spec_float) : spec_float * string :=
  if double_ne b double_zero then (double_div a b, "")
  else (S754_zero false, "Error: Division by zero!" +:+ endl).

(** The [for] loop of [getSequence]: [i] is the loop variable, [result]
    the vector built so far.  Each iteration uses one unit of [fuel];
    [None] means the fuel ran out before the loop ended. *)
Fixpoint getSequence_loop (fuel : nat) (i end_ : Z) (result : list Z)
    : option (list Z) :=
  if i <? end_ then
    match fuel with
    | O => None
    | S fuel' => getSequence_loop fuel' (Int.add i 1) end_ (result ++ [i])
    end
  else Some result.

Definition getSequence (fuel : nat) (start end_ : Z) : option (list Z) :=
  getSequence_loop fuel start end_ [].

End Calculator.

(** * Properties *)

(** ** Wrap-around arithmetic *)

Section IntFacts.

Import Int.

Lemma wrap_is_int z : is_int (wrap z).
Proof.
  unfold is_int, wrap, INT_MIN, INT_MAX.
  pose proof (Z.mod_pos_bound (z + 2 ^ 31) (2 ^ 32) ltac:(lia)). lia.
Qed.

Lemma wrap_small z : is_int z -> wrap z = z.
Proof.
  unfold is_int, wrap, INT_MIN, INT_MAX. intros Hz.
  rewrite Z.mod_small by lia. lia.
Qed.

(** Wrapping moves a number by a multiple of [2^32]. *)
Lemma wrap_spec z : exists k, wrap z = z + k * 2 ^ 32.
Proof.
  exists (- ((z + 2 ^ 31) / 2 ^ 32)). unfold wrap.
  pose proof (Z.div_mod (z + 2 ^ 31) (2 ^ 32) ltac:(lia)). lia.
Qed.

Lemma wrap_shift z k : wrap (z + k * 2 ^ 32) = wrap z.
Proof.
  unfold wrap.
  replace (z + k * 2 ^ 32 + 2 ^ 31) with (z + 2 ^ 31 + k * 2 ^ 32) by lia.
  now rewrite Z.mod_add by lia.
Qed.

Lemma neg_wrap z : neg (wrap z) = wrap (- z).
Proof.
  unfold neg. destruct (wrap_spec z) as [k ->].
  replace (- (z + k * 2 ^ 32)) with (- z + (- k) * 2 ^ 32) by lia.
  apply wrap_shift.
Qed.

Lemma sub_exact a b : is_int (a - b) -> sub a b = a - b.
Proof. apply wrap_small. Qed.

Lemma sub_eq_0 a b : is_int a -> is_int b -> sub a b = 0 <-> a = b.
Proof.
  unfold is_int, INT_MIN, INT_MAX, sub. intros Ha Hb. split.
  - intros Hw. destruct (wrap_spec (a - b)) as [k Hk]. rewrite Hw in Hk. nia.
  - intros ->. now rewrite Z.sub_diag.
Qed.

(** With the negation taken in [int] arithmetic too, swapping the
    operands of a subtraction negates the result. *)
Lemma sub_antisym a b : sub a b = neg (sub b a).
Proof. unfold sub. rewrite neg_wrap. f_equal. lia. Qed.

Lemma add_1_exact i : is_int i -> i < INT_MAX -> add i 1 = i + 1.
Proof.
  unfold is_int, INT_MIN, INT_MAX. intros Hi Hlt. apply wrap_small.
  unfold is_int, INT_MIN, INT_MAX. lia.
Qed.

End IntFacts.

(** ** The comparator *)

Section Comparator.

Implicit Types a b : Item.

(** When the difference of the two ids is an [int], the comparator
    returns that difference. *)
Lemma compare_items_exact a b :
  Int.is_int (id a - id b) -> compare_items a b = id a - id b.
Proof. apply sub_exact. Qed.

(** So its sign is the order of the ids whenever the difference fits. *)
Lemma compare_items_sign a b :
  Int.is_int (id a - id b) ->
  (id a < id b -> compare_items a b < 0) /\
  (id a = id b -> compare_items a b = 0) /\
  (id a > id b -> compare_items a b > 0).
Proof. intros H. rewrite (compare_items_exact a b H). lia. Qed.

(** The zero case holds for all pairs of [int] ids. *)
Lemma compare_items_zero_iff a b :
  Int.is_int (id a) -> Int.is_int (id b) ->
  compare_items a b = 0 <-> id a = id b.
Proof. apply sub_eq_0. Qed.

Lemma compare_items_antisym a b :
  compare_items a b = Int.neg (compare_items b a).
Proof. apply sub_antisym. Qed.

(** Of two records, one comes first. *)
Lemma comes_first_total a b :
  comes_first compare_items a b \/ comes_first compare_items b a.
Proof.
  unfold comes_first. rewrite (compare_items_antisym b a).
  pose proof (wrap_is_int (id a - id b)) as Hr.
  unfold compare_items, Int.sub, Int.neg in *.
  destruct (Z_le_gt_dec (Int.wrap (id a - id b)) 0) as [Hle | Hgt]; [now left | right].
  rewrite wrap_small; unfold Int.is_int, Int.INT_MIN, Int.INT_MAX in *; lia.
Qed.

(** C1.  The comparator does not return a negative number for every pair
    with [a.id < b.id]: on the ids [INT_MIN] and [1], both of them [int]
    values, the subtraction wraps and the result is [INT_MAX], a positive
    number. *)
Theorem compare_items_overflow :
  Int.is_int (id item_min) /\ Int.is_int (id item_one) /\
  id item_min < id item_one /\
  compare_items item_min item_one = Int.INT_MAX /\
  0 < compare_items item_min item_one.
Proof. vm_compute. repeat split; congruence. Qed.

(** C10.  The comparator reads nothing but the two [id] fields: pairs of
    records that agree on the ids compare the same, whatever their names
    and values. *)
Theorem compare_items_ids_only a b a' b' :
  id a = id a' -> id b = id b' ->
  compare_items a b = compare_items a' b'.
Proof. unfold compare_items. now intros -> ->. Qed.

Lemma compare_items_ids_only_witness :
  compare_items (mkItem 3 (list_ascii_of_string "Third") (float_lit 3 0))
                (mkItem 1 (list_ascii_of_string "First") (float_lit 1 0))
  = compare_items (mkItem 3 [] S754_nan) (mkItem 1 [NUL] (S754_infinity true)).
Proof. apply compare_items_ids_only; reflexivity. Defined.

End Comparator.

(** ** C strings *)

Section CStrings.

Implicit Types src dst : list ascii.

Lemma strlen_le_length src : (strlen src <= length src)%nat.
Proof.
  induction src as [|c src IH]; simpl; [lia|].
  destruct (Ascii.eqb c NUL); simpl; lia.
Qed.

Lemma length_strncpy_bytes src n : length (strncpy_bytes src n) = n.
Proof.
  revert src. induction n as [|n IH]; intros src; [reflexivity|].
  destruct src as [|c src]; simpl.
  - now rewrite length_replicate.
  - destruct (Ascii.eqb c NUL); simpl.
    + now rewrite length_replicate.
    + now rewrite IH.
Qed.

(** The copy followed by a terminator has the length of the source, cut
    at [n]. *)
Lemma strlen_strncpy_bytes src n rest :
  strlen (strncpy_bytes src n ++ NUL :: rest) = Nat.min (strlen src) n.
Proof.
  revert src. induction n as [|n IH]; intros src.
  - simpl. lia.
  - destruct src as [|c src]; [reflexivity|].
    change (strncpy_bytes (c :: src) (S n))
      with (if Ascii.eqb c NUL then replicate (S n) NUL
            else c :: strncpy_bytes src n).
    simpl strlen at 2.
    destruct (Ascii.eqb c NUL) eqn:Hc; [reflexivity|].
    simpl. rewrite Hc, IH. reflexivity.
Qed.

(** The characters of the copy are those of the source, cut at [n]. *)
Lemma fmt_s_strncpy_bytes src n rest :
  fmt_s (strncpy_bytes src n ++ NUL :: rest) =
  string_of_list_ascii (take n (take (strlen src) src)).
Proof.
  unfold fmt_s. f_equal. rewrite strlen_strncpy_bytes.
  revert src. induction n as [|n IH]; intros src.
  - now rewrite Nat.min_0_r.
  - destruct src as [|c src]; [reflexivity|].
    change (strncpy_bytes (c :: src) (S n))
      with (if Ascii.eqb c NUL then replicate (S n) NUL
            else c :: strncpy_bytes src n).
    simpl strlen.
    destruct (Ascii.eqb c NUL) eqn:Hc; [reflexivity|].
    simpl. now rewrite IH.
Qed.

(** What the two statements on [item->name] leave in a buffer of
    [NAME_SIZE] bytes: the copy of 49 bytes, then the terminator.  Nothing
    of the former contents remains. *)
Lemma name_stored dst src :
  length dst = NAME_SIZE ->
  <[(NAME_SIZE - 1)%nat := NUL]> (strncpy dst src (NAME_SIZE - 1)) =
  strncpy_bytes src (NAME_SIZE - 1) ++ [NUL].
Proof.
  intros Hlen. unfold strncpy.
  rewrite insert_app_r_alt by (rewrite length_strncpy_bytes; lia).
  rewrite length_strncpy_bytes, Nat.sub_diag. f_equal.
  unfold NAME_SIZE in *.
  do 50 (destruct dst as [|? dst]; [discriminate|]).
  destruct dst; [reflexivity | discriminate].
Qed.

End CStrings.

(** ** Text *)

Section Text.

Lemma append_cons c (s t : string) : String c s +:+ t = String c (s +:+ t).
Proof. reflexivity. Qed.

Lemma append_assoc (s t u : string) : (s +:+ t) +:+ u = s +:+ (t +:+ u).
Proof.
  induction s as [|c s IH]; [reflexivity|]. now rewrite !append_cons, IH.
Qed.

Lemma append_empty_r (s : string) : s +:+ "" = s.
Proof.
  induction s as [|c s IH]; [reflexivity|]. now rewrite append_cons, IH.
Qed.

End Text.

(** ** Running computations *)

Section Monad.

Context {A B : Type}.

Lemma run_bind (c : M A) (k : A -> M B) w :
  (c ≫= k) w = match c w with
               | Some (a, w') => k a w'
               | None => None
               end.
Proof. reflexivity. Qed.

Lemma run_bind_Some (c : M A) (k : A -> M B) w a w' :
  c w = Some (a, w') -> (c ≫= k) w = k a w'.
Proof. intros H. now rewrite run_bind, H. Qed.

End Monad.

Lemma run_update_insert l f it h o :
  update l f (mkWorld (<[l := it]> h) o) = Some (tt, mkWorld (<[l := f it]> h) o).
Proof.
  unfold update. simpl. rewrite lookup_insert_eq. now rewrite insert_insert_eq.
Qed.

(** ** [create_item] *)

Section Create.

Variables (id_ : Z) (name_ : list ascii) (value_ : spec_float).

(** When the allocator has no storage, [create_item] returns [NULL] and
    the world is as before. *)
Lemma create_item_fail w :
  create_item None id_ name_ value_ w = Some (NULL, w).
Proof. reflexivity. Qed.

(** When it has, the fresh block holds the three fields and nothing else
    changes. *)
Lemma create_item_ok junk w :
  create_item (Some junk) id_ name_ value_ w =
  let l := fresh (dom (heap w)) in
  Some (Addr l,
        mkWorld (<[l := mkItem id_
                          (<[(NAME_SIZE - 1)%nat := NUL]>
                             (strncpy (name junk) name_ (NAME_SIZE - 1)))
                          value_]> (heap w))
                (stdout w)).
Proof.
  unfold create_item. rewrite run_bind. unfold malloc. cbv zeta.
  repeat (rewrite (run_bind_Some _ _ _ _ _ (run_update_insert _ _ _ _ _))).
  reflexivity.
Qed.

Lemma fresh_not_live w : heap w !! fresh (dom (heap w)) = None.
Proof. apply not_elem_of_dom, is_fresh. Qed.

End Create.

(** A terminated buffer has its [NUL] at index [strlen]. *)
Lemma strlen_lookup_NUL (s : list ascii) :
  (strlen s < length s)%nat -> s !! strlen s = Some NUL.
Proof.
  induction s as [|c s IH]; simpl; [lia|].
  destruct (Ascii.eqb c NUL) eqn:Hc; simpl.
  - intros _. apply Ascii.eqb_eq in Hc. now subst.
  - intros H. apply IH. lia.
Qed.

Section CreateContract.

Variables (id_ : Z) (name_ : list ascii) (value_ : spec_float).

(** C2.  Given storage, [create_item] succeeds for a name of any length
    [L] (an over-length name is not rejected), and the stored name has
    [NAME_SIZE = 50] bytes, length [min(L, 49)], a [NUL] at index 49 and
    at the index of its length, and the first [min(L, 49)] characters of
    the given name. *)
Theorem create_item_name_truncated junk w :
  wf_name junk ->
  exists l w' it,
    create_item (Some junk) id_ name_ value_ w = Some (Addr l, w') /\
    heap w' !! l = Some it /\
    length (name it) = NAME_SIZE /\
    strlen (name it) = Nat.min (strlen name_) (NAME_SIZE - 1) /\
    name it !! (NAME_SIZE - 1)%nat = Some NUL /\
    name it !! strlen (name it) = Some NUL /\
    take (strlen (name it)) (name it) =
      take (NAME_SIZE - 1) (take (strlen name_) name_).
Proof.
  intros Hjunk. rewrite create_item_ok. cbv zeta.
  eexists _, _, _. split; [reflexivity|]. cbn [heap].
  split; [apply lookup_insert_eq|]. cbn [name].
  rewrite (name_stored _ _ Hjunk).
  assert (Hlen : length (strncpy_bytes name_ (NAME_SIZE - 1) ++ [NUL]) = NAME_SIZE).
  { rewrite length_app, length_strncpy_bytes. reflexivity. }
  assert (Hstr : strlen (strncpy_bytes name_ (NAME_SIZE - 1) ++ [NUL]) =
                 Nat.min (strlen name_) (NAME_SIZE - 1)).
  { apply strlen_strncpy_bytes. }
  repeat split.
  - exact Hlen.
  - exact Hstr.
  - rewrite lookup_app_r by (rewrite length_strncpy_bytes; lia).
    now rewrite length_strncpy_bytes, Nat.sub_diag.
  - apply strlen_lookup_NUL. rewrite Hlen, Hstr. unfold NAME_SIZE. lia.
  - pose proof (fmt_s_strncpy_bytes name_ (NAME_SIZE - 1) []) as H.
    unfold fmt_s in H.
    apply (f_equal list_ascii_of_string) in H.
    now rewrite !list_ascii_of_string_of_list_ascii in H.
Qed.

(** C4.  [create_item] never faults.  It returns [NULL] exactly when the
    allocator has no storage, and then the world is unchanged: no field
    is written.  Otherwise it returns the address of a block that was not
    live before and now holds the given [id], the given [value] and, in a
    buffer of [NAME_SIZE] bytes, the given name cut at 49 characters; the
    other blocks and the output are unchanged. *)
Theorem create_item_contract alloc w :
  (forall junk, alloc = Some junk -> wf_name junk) ->
  exists p w',
    create_item alloc id_ name_ value_ w = Some (p, w') /\
    (p = NULL <-> alloc = None) /\
    match p with
    | NULL => w' = w
    | Addr l =>
        heap w !! l = None /\
        stdout w' = stdout w /\
        (forall l', l' <> l -> heap w' !! l' = heap w !! l') /\
        exists it,
          heap w' !! l = Some it /\
          id it = id_ /\
          value it = value_ /\
          wf_name it /\
          fmt_s (name it) =
            string_of_list_ascii (take (NAME_SIZE - 1) (take (strlen name_) name_))
    end.
Proof.
  intros Hwf. destruct alloc as [junk|].
  - rewrite create_item_ok. cbv zeta. eexists _, _.
    split; [reflexivity|]. split; [split; discriminate|].
    cbn [heap stdout]. split; [apply fresh_not_live|].
    split; [reflexivity|].
    split; [intros l' Hne; now apply lookup_insert_ne|].
    eexists. split; [apply lookup_insert_eq|]. cbn [id name value].
    rewrite (name_stored _ _ (Hwf junk eq_refl)).
    repeat split.
    + unfold wf_name. cbn [name]. rewrite length_app, length_strncpy_bytes.
      reflexivity.
    + apply fmt_s_strncpy_bytes.
  - exists NULL, w. rewrite create_item_fail. repeat split.
Qed.

End CreateContract.

Lemma create_item_name_truncated_witness :
  wf_name junk_block /\
  exists l w' it,
    create_item (Some junk_block) 5 long_name (float_lit 1 0) empty_world
      = Some (Addr l, w') /\
    heap w' !! l = Some it /\
    length (name it) = NAME_SIZE /\
    strlen (name it) = Nat.min (strlen long_name) (NAME_SIZE - 1) /\
    name it !! (NAME_SIZE - 1)%nat = Some NUL /\
    name it !! strlen (name it) = Some NUL /\
    take (strlen (name it)) (name it) =
      take (NAME_SIZE - 1) (take (strlen long_name) long_name).
Proof.
  split; [reflexivity|].
  apply (create_item_name_truncated 5 long_name (float_lit 1 0) junk_block empty_world).
  reflexivity.
Defined.

Lemma create_item_contract_witness :
  exists p w',
    create_item (Some junk_block) 1 test_name test_value empty_world = Some (p, w') /\
    (p = NULL <-> Some junk_block = None) /\
    match p with
    | NULL => w' = empty_world
    | Addr l =>
        heap empty_world !! l = None /\
        stdout w' = stdout empty_world /\
        (forall l', l' <> l -> heap w' !! l' = heap empty_world !! l') /\
        exists it,
          heap w' !! l = Some it /\
          id it = 1 /\
          value it = test_value /\
          wf_name it /\
          fmt_s (name it) =
            string_of_list_ascii (take (NAME_SIZE - 1) (take (strlen test_name) test_name))
    end.
Proof.
  apply (create_item_contract 1 test_name test_value (Some junk_block) empty_world).
  intros junk [= <-]. reflexivity.
Defined.

(** Scenario C: the 58 characters are cut to the first 49. *)
Example scenario_C :
  exists l w' it,
    create_item (Some junk_block) 5 long_name (float_lit 1 0) empty_world
      = Some (Addr l, w') /\
    heap w' !! l = Some it /\
    strlen long_name = 58%nat /\
    strlen (name it) = 49%nat /\
    fmt_s (name it) = "ThisNameIsDefinitelyLongerThanTheFixedCapacityLim".
Proof.
  eexists _, _, _. rewrite create_item_ok. cbv zeta.
  split; [reflexivity|]. split; [apply lookup_insert_eq|].
  repeat split; vm_compute; reflexivity.
Qed.

(** ** [print_item] and [free_item] *)

Section Present.

(** One call on a live record appends the record's line to the output
    and leaves the heap as it is. *)
Lemma print_item_live w l it :
  heap w !! l = Some it ->
  print_item (Addr l) w = Some (tt, mkWorld (heap w) (stdout w +:+ item_line it)).
Proof.
  intros Hl. unfold print_item. rewrite run_bind. unfold load. now rewrite Hl.
Qed.

(** C5.  On the null pointer, [print_item] and [free_item] return
    without a fault and leave the world, heap and output, as it is. *)
Theorem null_handle_noop w :
  print_item NULL w = Some (tt, w) /\ free_item NULL w = Some (tt, w).
Proof. split; reflexivity. Qed.

(** C6.  [n] calls of [print_item] on a live record do not fault, leave
    the heap unchanged and append [n] copies of the same line to the
    output, for every [n]; so after any number of calls the record is
    still live with the same fields, and the next call prints that line
    again. *)
Theorem print_item_read_only n w l it :
  heap w !! l = Some it ->
  exists w',
    times n (print_item (Addr l)) w = Some (tt, w') /\
    heap w' = heap w /\
    stdout w' = stdout w +:+ copies n (item_line it) /\
    heap w' !! l = Some it /\
    print_item (Addr l) w' =
      Some (tt, mkWorld (heap w) (stdout w' +:+ item_line it)).
Proof.
  revert w. induction n as [|n IH]; intros w Hl.
  - exists w. cbn [times copies]. rewrite append_empty_r.
    repeat split; try assumption. now apply print_item_live.
  - cbn [times]. rewrite (run_bind_Some _ _ _ _ _ (print_item_live w l it Hl)).
    destruct (IH (mkWorld (heap w) (stdout w +:+ item_line it)) Hl)
      as (w' & Hrun & Hheap & Hout & Hlive & Hnext).
    cbn [heap stdout] in *. exists w'.
    split; [exact Hrun|]. split; [exact Hheap|].
    split; [rewrite Hout; cbn [copies]; apply append_assoc|].
    split; [exact Hlive | exact Hnext].
Qed.

(** Scenario D: under allocation failure [create_item] returns [NULL],
    and [print_item] and [free_item] on it change nothing. *)
Example scenario_D w :
  (p ← create_item None 1 test_name test_value;
   print_item p ;; free_item p ;; mret p) w = Some (NULL, w).
Proof. reflexivity. Qed.

(** Releasing a live record removes it from the heap; a second release
    of the same address, or a later [print_item], faults. *)
Lemma free_item_live w l it :
  heap w !! l = Some it ->
  free_item (Addr l) w = Some (tt, mkWorld (delete l (heap w)) (stdout w)).
Proof. intros Hl. unfold free_item, free. now rewrite Hl. Qed.

Lemma free_item_twice_faults w l it :
  heap w !! l = Some it ->
  (free_item (Addr l) ;; free_item (Addr l)) w = None.
Proof.
  intros Hl. rewrite (run_bind_Some _ _ _ _ _ (free_item_live w l it Hl)).
  unfold free_item, free. cbn [heap]. now rewrite lookup_delete_eq.
Qed.

End Present.

Lemma print_item_read_only_witness :
  heap one_block_world !! 1%positive = Some junk_block /\
  exists w',
    times 3 (print_item (Addr 1)) one_block_world = Some (tt, w') /\
    heap w' = heap one_block_world /\
    stdout w' = stdout one_block_world +:+ copies 3 (item_line junk_block) /\
    heap w' !! 1%positive = Some junk_block /\
    print_item (Addr 1) w' =
      Some (tt, mkWorld (heap one_block_world) (stdout w' +:+ item_line junk_block)).
Proof.
  split; [reflexivity|].
  apply (print_item_read_only 3 one_block_world 1%positive junk_block).
  reflexivity.
Defined.

(** ** Scenario A *)

(** The literal [42.5] survives the conversion to [float]: the stored
    value is [11141120 * 2^-18 = 42.5]. *)
Example test_value_exact : test_value = S754_finite false 11141120 (-18).
Proof. reflexivity. Qed.

(** C7.  After a successful [create_item(1, "Test Item", 42.5)],
    [print_item] on the returned pointer writes the line
    [ID: 1, Name: Test Item, Value: 42.50]. *)
Theorem scenario_A junk w :
  wf_name junk ->
  exists l w1 w2 it,
    create_item (Some junk) 1 test_name test_value w = Some (Addr l, w1) /\
    heap w1 !! l = Some it /\
    id it = 1 /\ fmt_s (name it) = "Test Item" /\ value it = test_value /\
    print_item (Addr l) w1 = Some (tt, w2) /\
    heap w2 = heap w1 /\
    stdout w2 = stdout w +:+ "ID: 1, Name: Test Item, Value: 42.50" +:+ newline.
Proof.
  intros Hjunk. rewrite create_item_ok. cbv zeta.
  eexists _, _, _, _. split; [reflexivity|].
  cbn [heap]. split; [apply lookup_insert_eq|].
  rewrite (name_stored _ _ Hjunk).
  split; [reflexivity|]. split; [reflexivity|]. split; [reflexivity|].
  split.
  - apply print_item_live. cbn [heap]. apply lookup_insert_eq.
  - split; reflexivity.
Qed.

Lemma scenario_A_witness :
  exists l w1 w2 it,
    create_item (Some junk_block) 1 test_name test_value empty_world = Some (Addr l, w1) /\
    heap w1 !! l = Some it /\
    id it = 1 /\ fmt_s (name it) = "Test Item" /\ value it = test_value /\
    print_item (Addr l) w1 = Some (tt, w2) /\
    heap w2 = heap w1 /\
    stdout w2 = stdout empty_world +:+ "ID: 1, Name: Test Item, Value: 42.50" +:+ newline.
Proof. apply (scenario_A junk_block empty_world). reflexivity. Defined.

(** ** The two [divide] helpers *)

Section Divide.

(** [b != 0] is false exactly on the two zeros. *)
Lemma double_ne_zero b :
  double_ne b double_zero = false <-> exists s, b = S754_zero s.
Proof.
  unfold double_ne, double_zero, SFeqb. split.
  - destruct b as [s | [] | | [] m e]; simpl; try discriminate. eauto.
  - intros [s ->]. reflexivity.
Qed.

(** C8.  When [b != 0], [math_utils::divide] and [Calculator::divide]
    both return [a / b] (and the latter writes nothing); when [b == 0],
    the former throws [runtime_error("Division by zero")] and returns no
    value, the latter returns [0.0] (after a message on [std::cerr]). *)
Theorem divide_helpers a b :
  (double_ne b double_zero = true ->
     math_utils.divide a b = inr (double_div a b) /\
     Calculator.divide a b = (double_div a b, "")) /\
  (double_ne b double_zero = false ->
     math_utils.divide a b = inl (runtime_error "Division by zero") /\
     Calculator.divide a b =
       (S754_zero false, "Error: Division by zero!" +:+ Calculator.endl)).
Proof.
  unfold math_utils.divide, Calculator.divide.
  split; intros ->; split; reflexivity.
Qed.

End Divide.

Lemma divide_helpers_witness :
  (math_utils.divide (double_lit 10 0) (double_lit 2 0) = inr (double_lit 5 0) /\
   Calculator.divide (double_lit 10 0) (double_lit 2 0) = (double_lit 5 0, "")) /\
  (math_utils.divide (double_lit 10 0) (S754_zero true)
     = inl (runtime_error "Division by zero") /\
   Calculator.divide (double_lit 10 0) (S754_zero true)
     = (S754_zero false, "Error: Division by zero!" +:+ Calculator.endl)).
Proof.
  split.
  - apply (proj1 (divide_helpers (double_lit 10 0) (double_lit 2 0))).
    reflexivity.
  - apply (proj2 (divide_helpers (double_lit 10 0) (S754_zero true))).
    reflexivity.
Defined.

(** ** [getSequence] *)

Section Sequence.

Import Calculator.

(** With enough fuel the loop appends to [result] the integers from [i]
    up to [end_ - 1]. *)
Lemma getSequence_loop_spec fuel : forall i end_ result,
  Int.is_int i -> Int.is_int end_ ->
  (Z.to_nat (end_ - i) <= fuel)%nat ->
  getSequence_loop fuel i end_ result = Some (result ++ seqZ i (end_ - i)).
Proof.
  induction fuel as [|fuel IH]; intros i end_ result Hi He Hfuel.
  - simpl. destruct (Z.ltb_spec i end_) as [Hlt | Hge]; [lia|].
    now rewrite seqZ_nil, app_nil_r by lia.
  - simpl. destruct (Z.ltb_spec i end_) as [Hlt | Hge].
    + assert (Hstep : Int.add i 1 = i + 1).
      { apply add_1_exact; [assumption|]. unfold Int.is_int in He. lia. }
      rewrite Hstep, IH.
      * rewrite <- app_assoc. simpl.
        rewrite (seqZ_cons i (end_ - i)) by lia.
        replace (Z.succ i) with (i + 1) by lia.
        replace (Z.pred (end_ - i)) with (end_ - (i + 1)) by lia.
        reflexivity.
      * unfold Int.is_int in *. lia.
      * assumption.
      * lia.
    + now rewrite seqZ_nil, app_nil_r by lia.
Qed.

(** C9.  For [int] arguments and enough fuel for the [end - start]
    iterations, [getSequence(start, end)] returns the list
    [start, start+1, ..., end-1]; when [start >= end] the list is empty
    (whatever the fuel). *)
Theorem getSequence_consecutive fuel start end_ :
  Int.is_int start -> Int.is_int end_ ->
  (Z.to_nat (end_ - start) <= fuel)%nat ->
  getSequence fuel start end_ = Some (seqZ start (end_ - start)) /\
  (end_ <= start -> getSequence fuel start end_ = Some []).
Proof.
  intros Hs He Hfuel. unfold getSequence.
  rewrite getSequence_loop_spec by assumption. split; [reflexivity|].
  intros Hle. now rewrite seqZ_nil by lia.
Qed.

End Sequence.

Lemma getSequence_consecutive_witness :
  Calculator.getSequence 4 1 5 = Some (seqZ 1 (5 - 1)) /\
  Calculator.getSequence 0 5 1 = Some [].
Proof.
  split.
  - apply (getSequence_consecutive 4 1 5);
      unfold Int.is_int, Int.INT_MIN, Int.INT_MAX; lia.
  - apply (getSequence_consecutive 0 5 1);
      unfold Int.is_int, Int.INT_MIN, Int.INT_MAX; lia.
Defined.

(** The call of [main]: [getSequence(1, 5)] is [1, 2, 3, 4]. *)
Example getSequence_1_5 : Calculator.getSequence 4 1 5 = Some [1; 2; 3; 4].
Proof. reflexivity. Qed.

(** ** Sorting with the comparator *)

Section Sorting.

#[local] Instance comes_first_compare_total : Total (comes_first compare_items).
Proof. intros a b. apply comes_first_total. Qed.

(** The sorted array holds the records of the input. *)
Lemma qsort_Permutation compar (l : list Item) : qsort compar l ≡ₚ l.
Proof. apply merge_sort_Permutation. Qed.

(** Neighbours of the sorted array are in comparator order. *)
Lemma qsort_compare_items_Sorted (l : list Item) :
  Sorted (comes_first compare_items) (qsort compare_items l).
Proof. apply Sorted_merge_sort, _. Qed.

(** An order on the records of [l] carries over to their ids. *)
Lemma Sorted_map_id (R : relation Item) (l : list Item) :
  (forall a b, a ∈ l -> b ∈ l -> R a b -> id a <= id b) ->
  Sorted R l -> Sorted Z.le (map id l).
Proof.
  intros Hle Hs. induction Hs as [|a l Hs IH Hhd]; simpl; constructor.
  - apply IH. intros x y Hx Hy. apply Hle; now right.
  - destruct Hhd as [|b l' Hab]; simpl; constructor.
    apply Hle; [left | right; left | exact Hab].
Qed.

(** When the difference of any two ids of the collection is an [int]
    (for instance when no id is negative), sorting with [compare_items]
    yields a permutation with non-decreasing ids. *)
Lemma qsort_ids_nondecreasing (l : list Item) :
  (forall a b, a ∈ l -> b ∈ l -> Int.is_int (id a - id b)) ->
  qsort compare_items l ≡ₚ l /\ ids_nondecreasing (qsort compare_items l).
Proof.
  intros Hfit. split; [apply qsort_Permutation|].
  apply (Sorted_map_id (comes_first compare_items));
    [|apply qsort_compare_items_Sorted].
  intros a b Ha Hb. unfold comes_first.
  rewrite (qsort_Permutation compare_items l) in Ha, Hb.
  rewrite compare_items_exact by now apply Hfit. lia.
Qed.

(** C3.  Sorting with [compare_items] does not always put the ids in
    non-decreasing order: for the records with ids [INT_MAX] and [-1],
    the comparator returns [INT_MIN] (the difference [2^31] wraps), the
    sort leaves them as they are and the result has ids [INT_MAX, -1]. *)
Theorem qsort_overflow :
  Int.is_int (id item_max) /\ Int.is_int (id item_neg) /\
  compare_items item_max item_neg = Int.INT_MIN /\
  qsort compare_items [item_max; item_neg] = [item_max; item_neg] /\
  map id (qsort compare_items [item_max; item_neg]) = [Int.INT_MAX; -1] /\
  ~ ids_nondecreasing (qsort compare_items [item_max; item_neg]).
Proof.
  split; [vm_compute; split; congruence|].
  split; [vm_compute; split; congruence|].
  split; [reflexivity|].
  assert (Hq : qsort compare_items [item_max; item_neg] = [item_max; item_neg])
    by (vm_compute; reflexivity).
  rewrite Hq. split; [reflexivity|]. split; [reflexivity|].
  unfold ids_nondecreasing. simpl. intros Hs.
  apply Sorted_inv in Hs as [_ Hhd]. apply HdRel_inv in Hhd.
  vm_compute in Hhd. now apply Hhd.
Qed.

(** Scenario B: the three records of [main], created with ids 3, 1, 2,
    come out of the sort with ids 1, 2, 3. *)
Example scenario_B :
  option_map (fun r => map id (fst r))
    (main_items (Some junk_block) (Some junk_block) (Some junk_block) empty_world)
  = Some [1; 2; 3].
Proof. vm_compute. reflexivity. Qed.

(** If the allocator fails, [main] dereferences the null pointer. *)
Example main_items_null_deref :
  main_items None (Some junk_block) (Some junk_block) empty_world = None.
Proof. reflexivity. Qed.

End Sorting.

(** * Further properties of the code *)

(** ** The comparator where the subtraction does not overflow *)

Section ComparatorInRange.

Implicit Types a b : Item.

(** X1.  When the difference of the two ids fits an [int] (for instance
    when both ids are non-negative), [compare_items] returns that
    difference and is a three-way comparator: negative, zero or positive
    exactly as [a.id] is below, equal to or above [b.id]. *)
Theorem compare_items_three_way a b :
  Int.is_int (id a - id b) ->
  compare_items a b = id a - id b /\
  (compare_items a b < 0 <-> id a < id b) /\
  (compare_items a b = 0 <-> id a = id b) /\
  (0 < compare_items a b <-> id b < id a).
Proof. intros H. rewrite (compare_items_exact a b H). lia. Qed.

(** X2.  For all [int] ids, overflow or not, the result is an [int], it
    is zero exactly when the ids are equal, and swapping the arguments
    negates it (the negation taken in [int] arithmetic). *)
Theorem compare_items_zero_and_swap a b :
  Int.is_int (id a) -> Int.is_int (id b) ->
  Int.is_int (compare_items a b) /\
  (compare_items a b = 0 <-> id a = id b) /\
  compare_items a b = Int.neg (compare_items b a).
Proof.
  intros Ha Hb. split; [apply wrap_is_int|].
  split; [now apply sub_eq_0 | apply sub_antisym].
Qed.

(** X3.  When all ids of a collection lie in one window of width
    [INT_MAX] (all non-negative, or all negative), sorting it with
    [compare_items] gives a permutation with non-decreasing ids. *)
Theorem qsort_window_sorted lo (l : list Item) :
  Forall (fun it => lo <= id it <= lo + Int.INT_MAX) l ->
  qsort compare_items l ≡ₚ l /\ ids_nondecreasing (qsort compare_items l).
Proof.
  intros Hwin. apply qsort_ids_nondecreasing. intros a b Ha Hb.
  rewrite Forall_forall in Hwin.
  pose proof (Hwin a Ha). pose proof (Hwin b Hb).
  unfold Int.is_int, Int.INT_MIN, Int.INT_MAX in *. lia.
Qed.

End ComparatorInRange.

Lemma compare_items_three_way_witness :
  compare_items item_a item_b = id item_a - id item_b /\
  (compare_items item_a item_b < 0 <-> id item_a < id item_b) /\
  (compare_items item_a item_b = 0 <-> id item_a = id item_b) /\
  (0 < compare_items item_a item_b <-> id item_b < id item_a).
Proof.
  apply (compare_items_three_way item_a item_b).
  vm_compute. split; congruence.
Defined.

Lemma compare_items_zero_and_swap_witness :
  Int.is_int (compare_items item_min item_one) /\
  (compare_items item_min item_one = 0 <-> id item_min = id item_one) /\
  compare_items item_min item_one = Int.neg (compare_items item_one item_min).
Proof.
  apply (compare_items_zero_and_swap item_min item_one);
    vm_compute; split; congruence.
Defined.

Lemma qsort_window_sorted_witness :
  qsort compare_items [item_a; item_b; item_max] ≡ₚ [item_a; item_b; item_max] /\
  ids_nondecreasing (qsort compare_items [item_a; item_b; item_max]).
Proof.
  apply (qsort_window_sorted 0 [item_a; item_b; item_max]).
  repeat constructor; vm_compute; congruence.
Defined.

(** ** The world after a creation *)

Section AllocWorld.

Lemma addr_of_not_live w : heap w !! addr_of w = None.
Proof. apply fresh_not_live. Qed.

Lemma alloc_world_new it w : heap (alloc_world it w) !! addr_of w = Some it.
Proof. apply lookup_insert_eq. Qed.

Lemma alloc_world_old it w k x :
  heap w !! k = Some x -> heap (alloc_world it w) !! k = Some x.
Proof.
  intros Hk. unfold alloc_world. cbn [heap].
  rewrite lookup_insert_ne; [assumption|].
  intros <-. rewrite addr_of_not_live in Hk. discriminate.
Qed.

Lemma alloc_world_size it w : size (heap (alloc_world it w)) = S (size (heap w)).
Proof. apply map_size_insert_None, addr_of_not_live. Qed.

(** After the four assignments the block holds [stored_item]: nothing of
    its former contents is left. *)
Lemma create_item_stored junk id_ name_ value_ w :
  wf_name junk ->
  create_item (Some junk) id_ name_ value_ w =
  Some (Addr (addr_of w), alloc_world (stored_item id_ name_ value_) w).
Proof.
  intros Hjunk. rewrite create_item_ok. cbv zeta.
  now rewrite (name_stored _ _ Hjunk).
Qed.

(** The bytes of the copy from the length of the source on are [NUL]. *)
Lemma strncpy_bytes_padding src n i :
  (strlen src <= i < n)%nat -> strncpy_bytes src n !! i = Some NUL.
Proof.
  revert src i. induction n as [|n IH]; intros src i Hi; [lia|].
  destruct src as [|c src].
  - apply lookup_replicate_2. lia.
  - cbn [strncpy_bytes]. cbn [strlen] in Hi.
    destruct (Ascii.eqb c NUL).
    + apply lookup_replicate_2. lia.
    + destruct i as [|i]; [lia|]. cbn. apply IH. lia.
Qed.

End AllocWorld.

(** ** More on [create_item] and [free_item] *)

Section Lifecycle.

Variables (id_ : Z) (name_ : list ascii) (value_ : spec_float).

(** X4.  The created record does not depend on what the fresh block held
    before: two allocator answers with different former contents give the
    same result and world, and every byte of the stored name from the
    length of the given name up to the end of the buffer is [NUL]. *)
Theorem create_item_no_leftover junk1 junk2 w :
  wf_name junk1 -> wf_name junk2 ->
  create_item (Some junk1) id_ name_ value_ w =
    create_item (Some junk2) id_ name_ value_ w /\
  exists l w' it,
    create_item (Some junk1) id_ name_ value_ w = Some (Addr l, w') /\
    heap w' !! l = Some it /\
    forall i, (strlen name_ <= i < NAME_SIZE)%nat -> name it !! i = Some NUL.
Proof.
  intros H1 H2. rewrite !create_item_stored by assumption.
  split; [reflexivity|]. eexists _, _, _.
  split; [reflexivity|]. split; [apply alloc_world_new|].
  intros i Hi. cbn [name stored_item].
  destruct (decide (i < NAME_SIZE - 1)%nat) as [Hlt | Hge].
  - rewrite lookup_app_l by (now rewrite length_strncpy_bytes).
    apply strncpy_bytes_padding. lia.
  - rewrite lookup_app_r by (rewrite length_strncpy_bytes; lia).
    rewrite length_strncpy_bytes.
    replace (i - (NAME_SIZE - 1))%nat with 0%nat by (unfold NAME_SIZE in *; lia).
    reflexivity.
Qed.

(** X5.  A name that fits (fewer than [NAME_SIZE] characters) is stored
    whole: the stored name has the same length and reads back as the same
    text. *)
Theorem create_item_short_name junk w :
  wf_name junk ->
  (strlen name_ < NAME_SIZE)%nat ->
  exists l w' it,
    create_item (Some junk) id_ name_ value_ w = Some (Addr l, w') /\
    heap w' !! l = Some it /\
    strlen (name it) = strlen name_ /\
    fmt_s (name it) = fmt_s name_.
Proof.
  intros Hjunk Hshort. rewrite create_item_stored by assumption.
  eexists _, _, _. split; [reflexivity|]. split; [apply alloc_world_new|].
  cbn [name stored_item]. split.
  - rewrite strlen_strncpy_bytes. unfold NAME_SIZE in *. lia.
  - rewrite fmt_s_strncpy_bytes. unfold fmt_s. f_equal.
    rewrite take_take. f_equal. unfold NAME_SIZE in *. lia.
Qed.

(** X6.  [create_item] followed by [free_item] on its result gives back
    the world it started from, whether the allocation succeeded or
    failed. *)
Theorem create_then_free alloc w :
  (p ← create_item alloc id_ name_ value_; free_item p) w = Some (tt, w).
Proof.
  destruct alloc as [junk|].
  - rewrite (run_bind_Some _ _ _ _ _ (create_item_ok id_ name_ value_ junk w)).
    cbv zeta. unfold free_item, free. cbn [heap stdout].
    rewrite lookup_insert_eq, delete_insert_eq.
    rewrite delete_id by apply fresh_not_live.
    now destruct w.
  - reflexivity.
Qed.

End Lifecycle.

Section Release.

(** X7.  [free_item] on a live record removes that record and nothing
    else: the other records and the output are unchanged.  The pointer is
    dead afterwards: a second [free_item] and a [print_item] on it both
    fault. *)
Theorem free_item_releases w l it :
  heap w !! l = Some it ->
  exists w',
    free_item (Addr l) w = Some (tt, w') /\
    heap w' !! l = None /\
    (forall k, k <> l -> heap w' !! k = heap w !! k) /\
    stdout w' = stdout w /\
    free_item (Addr l) w' = None /\
    print_item (Addr l) w' = None.
Proof.
  intros Hl. eexists. split; [now apply (free_item_live w l it)|].
  cbn [heap stdout].
  assert (Hgone : delete l (heap w) !! l = None) by apply lookup_delete_eq.
  split; [exact Hgone|].
  split; [intros k Hk; now apply lookup_delete_ne|].
  split; [reflexivity|].
  split.
  - unfold free_item, free. cbn [heap]. now rewrite Hgone.
  - unfold print_item. rewrite run_bind. unfold load. cbn [heap].
    now rewrite Hgone.
Qed.

End Release.

Lemma create_item_no_leftover_witness :
  create_item (Some junk_block) 5 test_name test_value empty_world =
    create_item (Some junk_block') 5 test_name test_value empty_world /\
  exists l w' it,
    create_item (Some junk_block) 5 test_name test_value empty_world
      = Some (Addr l, w') /\
    heap w' !! l = Some it /\
    forall i, (strlen test_name <= i < NAME_SIZE)%nat -> name it !! i = Some NUL.
Proof.
  apply (create_item_no_leftover 5 test_name test_value
           junk_block junk_block' empty_world); reflexivity.
Defined.

Lemma create_item_short_name_witness :
  exists l w' it,
    create_item (Some junk_block) 5 test_name test_value empty_world
      = Some (Addr l, w') /\
    heap w' !! l = Some it /\
    strlen (name it) = strlen test_name /\
    fmt_s (name it) = fmt_s test_name.
Proof.
  apply (create_item_short_name 5 test_name test_value junk_block empty_world).
  - reflexivity.
  - vm_compute. lia.
Defined.

Lemma free_item_releases_witness :
  exists w',
    free_item (Addr 1) one_block_world = Some (tt, w') /\
    heap w' !! 1%positive = None /\
    (forall k, k <> 1%positive -> heap w' !! k = heap one_block_world !! k) /\
    stdout w' = stdout one_block_world /\
    free_item (Addr 1) w' = None /\
    print_item (Addr 1) w' = None.
Proof.
  apply (free_item_releases one_block_world 1%positive junk_block).
  reflexivity.
Defined.

(** ** Running [main] *)

Section RunSteps.

Context {B : Type}.
Implicit Types k : unit -> M B.

Lemma run_printf text k w :
  (printf text ≫= k) w = k tt (mkWorld (heap w) (stdout w +:+ text)).
Proof. reflexivity. Qed.

Lemma run_create junk id_ name_ value_ (k : pointer -> M B) w :
  wf_name junk ->
  (create_item (Some junk) id_ name_ value_ ≫= k) w =
  k (Addr (addr_of w)) (alloc_world (stored_item id_ name_ value_) w).
Proof.
  intros Hj. apply run_bind_Some. now apply create_item_stored.
Qed.

Lemma run_create_deref junk id_ name_ value_ (k : Item -> M B) w :
  wf_name junk ->
  (create_item (Some junk) id_ name_ value_ ≫= fun p => deref p ≫= k) w =
  k (stored_item id_ name_ value_) (alloc_world (stored_item id_ name_ value_) w).
Proof.
  intros Hj. rewrite run_create by assumption.
  apply run_bind_Some. unfold deref, load. now rewrite alloc_world_new.
Qed.

Lemma run_print_item_live l it k w :
  heap w !! l = Some it ->
  (print_item (Addr l) ≫= k) w =
  k tt (mkWorld (heap w) (stdout w +:+ item_line it)).
Proof. intros Hl. apply run_bind_Some. now apply print_item_live. Qed.

Lemma run_free_item_live l it k w :
  heap w !! l = Some it ->
  (free_item (Addr l) ≫= k) w =
  k tt (mkWorld (delete l (heap w)) (stdout w)).
Proof. intros Hl. apply run_bind_Some. now apply (free_item_live w l it). Qed.

End RunSteps.

Lemma print_items_run items w :
  print_items items w =
  Some (tt, mkWorld (heap w) (stdout w +:+ items_text items)).
Proof.
  revert w. induction items as [|it rest IH]; intros w.
  - cbn [print_items items_text]. rewrite append_empty_r. now destruct w.
  - cbn [print_items items_text]. unfold print_item_at.
    rewrite run_printf, IH. cbn [heap stdout]. now rewrite append_assoc.
Qed.

(** The sort puts the three records of [main] in the order of their
    ids. *)
Lemma qsort_main_items :
  qsort compare_items [third_item; first_item; second_item] =
  [first_item; second_item; third_item].
Proof. vm_compute. reflexivity. Qed.

Lemma main_items_run j0 j1 j2 w :
  wf_name j0 -> wf_name j1 -> wf_name j2 ->
  main_items (Some j0) (Some j1) (Some j2) w =
  Some ([first_item; second_item; third_item],
        alloc_world second_item (alloc_world first_item (alloc_world third_item w))).
Proof.
  intros H0 H1 H2. unfold main_items.
  rewrite (run_create_deref j0) by assumption.
  rewrite (run_create_deref j1) by assumption.
  rewrite (run_create_deref j2) by assumption.
  fold third_item first_item second_item.
  now rewrite qsort_main_items.
Qed.

(** A failed allocation for the array is dereferenced. *)
Lemma main_items_fault a0 a1 a2 w :
  a0 = None \/ a1 = None \/ a2 = None -> main_items a0 a1 a2 w = None.
Proof.
  intros Hnone. unfold main_items.
  destruct a0 as [j0|]; [|reflexivity].
  rewrite (run_bind_Some _ _ _ _ _ (create_item_ok _ _ _ j0 w)). cbv zeta.
  rewrite run_bind. unfold deref at 1, load. cbn [heap].
  rewrite lookup_insert_eq.
  destruct a1 as [j1|]; [|reflexivity].
  rewrite (run_bind_Some _ _ _ _ _ (create_item_ok _ _ _ j1 _)). cbv zeta.
  rewrite run_bind. unfold deref at 1, load. cbn [heap].
  rewrite lookup_insert_eq.
  destruct a2 as [j2|]; [|reflexivity].
  destruct Hnone as [H | [H | H]]; discriminate.
Qed.

Section ThreeAllocations.

Variables (it1 it2 it3 : Item) (w : world).

Let w3 := alloc_world it3 (alloc_world it2 (alloc_world it1 w)).

Lemma alloc_world_none_back it w0 k :
  heap (alloc_world it w0) !! k = None -> heap w0 !! k = None.
Proof.
  intros Hnone. destruct (heap w0 !! k) as [x|] eqn:Hk; [|reflexivity].
  rewrite (alloc_world_old it w0 k x Hk) in Hnone. discriminate.
Qed.

Lemma alloc3_size : size (heap w3) = (size (heap w) + 3)%nat.
Proof. unfold w3. rewrite !alloc_world_size. lia. Qed.

Lemma alloc3_old k x : heap w !! k = Some x -> heap w3 !! k = Some x.
Proof. intros Hk. unfold w3. now do 3 apply alloc_world_old. Qed.

Lemma alloc3_new it :
  it ∈ [it1; it2; it3] -> exists k, heap w !! k = None /\ heap w3 !! k = Some it.
Proof.
  intros Hin. unfold w3.
  apply elem_of_cons in Hin as [-> | Hin];
    [|apply elem_of_cons in Hin as [-> | Hin];
      [|apply list_elem_of_singleton in Hin as ->]].
  - exists (addr_of w). split; [apply addr_of_not_live|].
    do 2 apply alloc_world_old. apply alloc_world_new.
  - exists (addr_of (alloc_world it1 w)). split.
    + eapply alloc_world_none_back, addr_of_not_live.
    + apply alloc_world_old, alloc_world_new.
  - exists (addr_of (alloc_world it2 (alloc_world it1 w))). split.
    + do 2 eapply alloc_world_none_back. apply addr_of_not_live.
    + apply alloc_world_new.
Qed.

End ThreeAllocations.

Section Main.

Variables (j0 j1 j2 : Item) (w : world).
Hypotheses (Hj0 : wf_name j0) (Hj1 : wf_name j1) (Hj2 : wf_name j2).

(** [main] when all four allocations succeed. *)
Lemma main_run j :
  wf_name j ->
  exists w',
    main (Some j) (Some j0) (Some j1) (Some j2) w = Some (0, w') /\
    stdout w' = stdout w +:+ main_output /\
    size (heap w') = (size (heap w) + 3)%nat /\
    (forall k x, heap w !! k = Some x -> heap w' !! k = Some x) /\
    (forall it, it ∈ [third_item; first_item; second_item] ->
       exists k, heap w !! k = None /\ heap w' !! k = Some it) /\
    heap w' !! addr_of w = None.
Proof.
  intros Hj. unfold main.
  rewrite run_printf. set (w1 := mkWorld (heap w) _).
  rewrite run_create by assumption. fold test_item.
  rewrite (run_print_item_live (addr_of w1) test_item)
    by apply alloc_world_new.
  set (w2 := mkWorld (heap (alloc_world test_item w1)) _).
  rewrite (run_bind_Some _ _ _ _ _ (main_items_run j0 j1 j2 w2 Hj0 Hj1 Hj2)).
  set (w3 := alloc_world second_item _).
  rewrite run_printf.
  rewrite (run_bind_Some _ _ _ _ _ (print_items_run _ _)). cbn [heap stdout].
  assert (Hlive : heap w3 !! addr_of w1 = Some test_item).
  { apply alloc3_old. apply alloc_world_new. }
  rewrite (run_free_item_live (addr_of w1) test_item) by exact Hlive.
  cbn [heap stdout]. eexists. split; [reflexivity|]. cbn [heap stdout].
  assert (Hold : forall k x, heap w !! k = Some x -> heap w2 !! k = Some x).
  { intros k x Hk. apply (alloc_world_old test_item w1 k x Hk). }
  split; [|split; [|split; [|split]]].
  - unfold w3, w2, w1. cbn [stdout alloc_world].
    rewrite !append_assoc. f_equal.
  - rewrite map_size_delete_Some by (rewrite Hlive; eauto).
    unfold w3. rewrite alloc3_size. unfold w2. cbn [heap].
    rewrite alloc_world_size. unfold w1. cbn [heap]. lia.
  - intros k x Hk. rewrite lookup_delete_ne.
    + apply alloc3_old, Hold, Hk.
    + intros <-. change (addr_of w1) with (addr_of w) in Hk.
      rewrite addr_of_not_live in Hk. discriminate.
  - intros it Hin.
    destruct (alloc3_new third_item first_item second_item w2 it Hin)
      as (k & Hnone & Hk).
    exists k. split.
    + now apply (alloc_world_none_back test_item w1).
    + rewrite lookup_delete_ne; [exact Hk|].
      intros <-. unfold w2 in Hnone. cbn [heap] in Hnone.
      rewrite alloc_world_new in Hnone. discriminate.
  - apply lookup_delete_eq.
Qed.

(** [main] when the first allocation fails and the other three
    succeed. *)
Lemma main_run_no_item :
  exists w',
    main None (Some j0) (Some j1) (Some j2) w = Some (0, w') /\
    stdout w' = stdout w +:+ main_output_no_item /\
    size (heap w') = (size (heap w) + 3)%nat /\
    (forall k x, heap w !! k = Some x -> heap w' !! k = Some x).
Proof.
  unfold main.
  rewrite run_printf. set (w1 := mkWorld (heap w) _).
  rewrite (run_bind_Some _ _ _ _ _ (create_item_fail _ _ _ w1)).
  rewrite (run_bind_Some _ _ _ _ _ (eq_refl : print_item NULL w1 = Some (tt, w1))).
  rewrite (run_bind_Some _ _ _ _ _ (main_items_run j0 j1 j2 w1 Hj0 Hj1 Hj2)).
  set (w3 := alloc_world second_item _).
  rewrite run_printf.
  rewrite (run_bind_Some _ _ _ _ _ (print_items_run _ _)). cbn [heap stdout].
  eexists. split; [reflexivity|]. cbn [heap stdout].
  split; [|split].
  - unfold w3, w1. cbn [stdout alloc_world]. rewrite !append_assoc. f_equal.
  - unfold w3. now rewrite alloc3_size.
  - intros k x Hk. now apply alloc3_old.
Qed.

End Main.

Section MainProperties.

Variables (j j0 j1 j2 : Item) (w : world).

(** X8.  When its three allocations succeed, the array part of [main]
    yields the records in the order of their ids, 1, 2, 3, each with its
    own name and value, whatever the fresh blocks held before, and it
    writes nothing. *)
Theorem main_items_sorted :
  wf_name j0 -> wf_name j1 -> wf_name j2 ->
  exists items w',
    main_items (Some j0) (Some j1) (Some j2) w = Some (items, w') /\
    map id items = [1; 2; 3] /\
    map (fun it => fmt_s (name it)) items = ["First"; "Second"; "Third"]%string /\
    map value items = [float_lit 1 0; float_lit 2 0; float_lit 3 0] /\
    stdout w' = stdout w.
Proof.
  intros H0 H1 H2. rewrite main_items_run by assumption.
  eexists _, _. split; [reflexivity|]. repeat split.
Qed.

(** X9.  When all four allocations succeed, [main] returns 0 and appends
    to the output exactly: the title, the line of the test item, an empty
    line, [Sorted items:] and the lines of the three records in the order
    First, Second, Third, with values printed as 1.00, 2.00, 3.00. *)
Theorem main_output_ok :
  wf_name j -> wf_name j0 -> wf_name j1 -> wf_name j2 ->
  exists w',
    main (Some j) (Some j0) (Some j1) (Some j2) w = Some (0, w') /\
    stdout w' = stdout w +:+ main_output.
Proof.
  intros Hj H0 H1 H2.
  destruct (main_run j0 j1 j2 w H0 H1 H2 j Hj) as (w' & Hrun & Hout & _).
  exists w'. now split.
Qed.

(** X10.  [main] releases only [my_item].  When all four allocations
    succeed, the three records copied into the array stay live at exit, at
    addresses that were not live at the start: the heap has three blocks
    more than before, every block live at the start is still there
    unchanged, and the block of [my_item] is gone. *)
Theorem main_leaks_three :
  wf_name j -> wf_name j0 -> wf_name j1 -> wf_name j2 ->
  exists w',
    main (Some j) (Some j0) (Some j1) (Some j2) w = Some (0, w') /\
    size (heap w') = (size (heap w) + 3)%nat /\
    (forall k x, heap w !! k = Some x -> heap w' !! k = Some x) /\
    (forall it, it ∈ [third_item; first_item; second_item] ->
       exists k, heap w !! k = None /\ heap w' !! k = Some it) /\
    heap w' !! addr_of w = None.
Proof.
  intros Hj H0 H1 H2.
  destruct (main_run j0 j1 j2 w H0 H1 H2 j Hj)
    as (w' & Hrun & _ & Hsize & Hold & Hnew & Hgone).
  exists w'. repeat split; assumption.
Qed.

(** X11.  [main] tolerates the failure of its first allocation: with
    [my_item] null and the other three allocations successful it still
    returns 0; the output is the same without the line of the test item,
    and again three blocks stay live. *)
Theorem main_without_my_item :
  wf_name j0 -> wf_name j1 -> wf_name j2 ->
  exists w',
    main None (Some j0) (Some j1) (Some j2) w = Some (0, w') /\
    stdout w' = stdout w +:+ main_output_no_item /\
    size (heap w') = (size (heap w) + 3)%nat /\
    (forall k x, heap w !! k = Some x -> heap w' !! k = Some x).
Proof. intros H0 H1 H2. now apply main_run_no_item. Qed.

End MainProperties.

(** X12.  [main] faults exactly when one of the three allocations for the
    array fails: the result of [create_item] is dereferenced there without
    a null check.  A failure of the first allocation alone is no fault. *)
Theorem main_faults_iff a a0 a1 a2 w :
  wf_alloc a -> wf_alloc a0 -> wf_alloc a1 -> wf_alloc a2 ->
  main a a0 a1 a2 w = None <-> a0 = None \/ a1 = None \/ a2 = None.
Proof.
  intros Ha H0 H1 H2. split.
  - intros Hfault.
    destruct a0 as [j0|]; [|now left].
    destruct a1 as [j1|]; [|now right; left].
    destruct a2 as [j2|]; [|now right; right].
    exfalso.
    pose proof (H0 j0 eq_refl) as Hj0. pose proof (H1 j1 eq_refl) as Hj1.
    pose proof (H2 j2 eq_refl) as Hj2.
    destruct a as [j|].
    + destruct (main_run j0 j1 j2 w Hj0 Hj1 Hj2 j (Ha j eq_refl))
        as (w' & Hrun & _).
      rewrite Hrun in Hfault. discriminate.
    + destruct (main_run_no_item j0 j1 j2 w Hj0 Hj1 Hj2) as (w' & Hrun & _).
      rewrite Hrun in Hfault. discriminate.
  - intros Hnone. unfold main. rewrite run_printf.
    destruct a as [j|].
    + rewrite run_create by now apply Ha.
      rewrite (run_print_item_live _ (stored_item 1 test_name test_value))
        by apply alloc_world_new.
      rewrite run_bind. now rewrite main_items_fault.
    + rewrite (run_bind_Some _ _ _ _ _ (create_item_fail _ _ _ _)).
      rewrite (run_bind_Some _ _ _ _ _
                 (eq_refl : print_item NULL _ = Some (tt, _))).
      rewrite run_bind. now rewrite main_items_fault.
Qed.

Lemma main_items_sorted_witness :
  exists items w',
    main_items (Some junk_block) (Some junk_block') (Some junk_block) empty_world
      = Some (items, w') /\
    map id items = [1; 2; 3] /\
    map (fun it => fmt_s (name it)) items = ["First"; "Second"; "Third"]%string /\
    map value items = [float_lit 1 0; float_lit 2 0; float_lit 3 0] /\
    stdout w' = stdout empty_world.
Proof.
  apply (main_items_sorted junk_block junk_block' junk_block empty_world);
    reflexivity.
Defined.

Lemma main_output_ok_witness :
  exists w',
    main (Some junk_block) (Some junk_block) (Some junk_block') (Some junk_block)
      empty_world = Some (0, w') /\
    stdout w' = stdout empty_world +:+ main_output.
Proof.
  apply (main_output_ok junk_block junk_block junk_block' junk_block empty_world);
    reflexivity.
Defined.

Lemma main_leaks_three_witness :
  exists w',
    main (Some junk_block) (Some junk_block) (Some junk_block') (Some junk_block)
      one_block_world = Some (0, w') /\
    size (heap w') = (size (heap one_block_world) + 3)%nat /\
    (forall k x, heap one_block_world !! k = Some x -> heap w' !! k = Some x) /\
    (forall it, it ∈ [third_item; first_item; second_item] ->
       exists k, heap one_block_world !! k = None /\ heap w' !! k = Some it) /\
    heap w' !! addr_of one_block_world = None.
Proof.
  apply (main_leaks_three junk_block junk_block junk_block' junk_block
           one_block_world); reflexivity.
Defined.

Lemma main_without_my_item_witness :
  exists w',
    main None (Some junk_block) (Some junk_block') (Some junk_block) empty_world
      = Some (0, w') /\
    stdout w' = stdout empty_world +:+ main_output_no_item /\
    size (heap w') = (size (heap empty_world) + 3)%nat /\
    (forall k x, heap empty_world !! k = Some x -> heap w' !! k = Some x).
Proof.
  apply (main_without_my_item junk_block junk_block' junk_block empty_world);
    reflexivity.
Defined.

Lemma main_faults_iff_witness :
  main (Some junk_block) (Some junk_block) None (Some junk_block) empty_world = None
  <-> Some junk_block = None \/ @None Item = None \/ Some junk_block = None.
Proof.
  apply (main_faults_iff (Some junk_block) (Some junk_block) None
           (Some junk_block) empty_world);
    intros junk [= <-]; reflexivity.
Defined.

(** ** More on [getSequence] *)

Section SequenceElements.

Import Calculator.

Variables (fuel : nat) (start end_ : Z).
Hypotheses (Hstart : Int.is_int start) (Hend : Int.is_int end_).

(** X13.  The vector [getSequence(start, end)] returns has
    [max(0, end - start)] elements; the element at index [i] is
    [start + i]; an integer occurs in it exactly when it lies in
    [start <= k < end], and none occurs twice. *)
Theorem getSequence_elements :
  (Z.to_nat (end_ - start) <= fuel)%nat ->
  exists l,
    getSequence fuel start end_ = Some l /\
    length l = Z.to_nat (end_ - start) /\
    (forall i, (i < length l)%nat -> l !! i = Some (start + Z.of_nat i)) /\
    (forall k, k ∈ l <-> start <= k < end_) /\
    NoDup l.
Proof.
  intros Hfuel. exists (seqZ start (end_ - start)).
  unfold getSequence. rewrite getSequence_loop_spec by assumption.
  split; [reflexivity|]. split; [apply length_seqZ|].
  split; [|split; [|apply NoDup_seqZ]].
  - intros i Hi. rewrite length_seqZ in Hi. apply lookup_seqZ_lt. lia.
  - intros k. rewrite elem_of_seqZ. lia.
Qed.

(** X14.  Sequences over adjacent ranges join up: for
    [start <= mid <= end], [getSequence(start, mid)] followed by
    [getSequence(mid, end)] is [getSequence(start, end)]. *)
Theorem getSequence_split mid :
  Int.is_int mid -> start <= mid <= end_ ->
  (Z.to_nat (end_ - start) <= fuel)%nat ->
  exists l1 l2,
    getSequence fuel start mid = Some l1 /\
    getSequence fuel mid end_ = Some l2 /\
    getSequence fuel start end_ = Some (l1 ++ l2).
Proof.
  intros Hmid Horder Hfuel.
  exists (seqZ start (mid - start)), (seqZ mid (end_ - mid)).
  unfold getSequence. rewrite !getSequence_loop_spec by (assumption || lia).
  repeat split. cbn [app]. f_equal.
  replace (end_ - start) with ((mid - start) + (end_ - mid)) by lia.
  rewrite seqZ_app by lia. do 2 f_equal. lia.
Qed.

End SequenceElements.

Lemma getSequence_elements_witness :
  exists l,
    Calculator.getSequence 4 1 5 = Some l /\
    length l = Z.to_nat (5 - 1) /\
    (forall i, (i < length l)%nat -> l !! i = Some (1 + Z.of_nat i)) /\
    (forall k, k ∈ l <-> 1 <= k < 5) /\
    NoDup l.
Proof.
  apply (getSequence_elements 4 1 5);
    unfold Int.is_int, Int.INT_MIN, Int.INT_MAX; lia.
Defined.

Lemma getSequence_split_witness :
  exists l1 l2,
    Calculator.getSequence 6 (-2) 1 = Some l1 /\
    Calculator.getSequence 6 1 4 = Some l2 /\
    Calculator.getSequence 6 (-2) 4 = Some (l1 ++ l2).
Proof.
  apply (getSequence_split 6 (-2) 4);
    unfold Int.is_int, Int.INT_MIN, Int.INT_MAX; lia.
Defined.

(** ** More on the [divide] helpers *)

Section DivideEdges.

(** X15.  The zero test of both helpers is met exactly by the two zeros,
    [+0.0] and [-0.0]: [math_utils::divide] throws, and
    [Calculator::divide] writes its message, if and only if [b] is one of
    them.  A NaN or an infinite divisor is not an error. *)
Theorem divide_error_iff_zero a b :
  (math_utils.divide a b = inl (runtime_error "Division by zero")
     <-> exists s, b = S754_zero s) /\
  (snd (Calculator.divide a b) = "Error: Division by zero!" +:+ Calculator.endl
     <-> exists s, b = S754_zero s) /\
  ((forall s, b <> S754_zero s) ->
     math_utils.divide a b = inr (double_div a b) /\
     Calculator.divide a b = (double_div a b, "")).
Proof.
  unfold math_utils.divide, Calculator.divide.
  rewrite <- !double_ne_zero.
  destruct (double_ne b double_zero) eqn:Hne.
  - split; [split; discriminate|]. split; [split; discriminate|]. now intros _.
  - split; [split; reflexivity|]. split; [split; reflexivity|].
    intros Hnz. apply double_ne_zero in Hne as [s ->]. now destruct (Hnz s).
Qed.

(** X16.  The value [Calculator::divide] returns on its error path is
    also an ordinary quotient: [0.0 / b] for a positive finite [b] returns
    the same [0.0], with no message.  The two cases differ only in what is
    written to [std::cerr]. *)
Theorem Calculator_divide_zero_ambiguous a s m e :
  fst (Calculator.divide (S754_zero false) (S754_finite false m e)) =
    fst (Calculator.divide a (S754_zero s)) /\
  snd (Calculator.divide (S754_zero false) (S754_finite false m e)) = ""%string /\
  snd (Calculator.divide a (S754_zero s)) <> ""%string.
Proof. repeat split. discriminate. Qed.

End DivideEdges.

Lemma divide_error_iff_zero_witness :
  math_utils.divide (double_lit 1 0) S754_nan = inr (double_div (double_lit 1 0) S754_nan) /\
  Calculator.divide (double_lit 1 0) S754_nan = (double_div (double_lit 1 0) S754_nan, "").
Proof.
  apply (divide_error_iff_zero (double_lit 1 0) S754_nan). discriminate.
Defined.

(** ** [add] and [multiply] *)

Section AddMultiply.

Variables a b : Z.

(** X17.  The two [add] helpers agree, and so do the two [multiply]
    helpers.  Each result is an [int] that differs from the mathematical
    sum or product by a multiple of [2^32], and is that sum or product
    whenever it fits an [int]. *)
Theorem add_multiply_wrap :
  (Calculator.add a b = math_utils.add a b /\
   Int.is_int (math_utils.add a b) /\
   (exists k, math_utils.add a b = a + b + k * 2 ^ 32) /\
   (Int.is_int (a + b) -> math_utils.add a b = a + b)) /\
  (Calculator.multiply a b = math_utils.multiply a b /\
   Int.is_int (math_utils.multiply a b) /\
   (exists k, math_utils.multiply a b = a * b + k * 2 ^ 32) /\
   (Int.is_int (a * b) -> math_utils.multiply a b = a * b)).
Proof.
  unfold Calculator.add, math_utils.add, Calculator.multiply,
    math_utils.multiply, Int.add, Int.mul.
  repeat split;
    first [ apply wrap_is_int | apply wrap_spec | apply wrap_small ].
Qed.

End AddMultiply.

Lemma add_multiply_wrap_witness :
  math_utils.add 2 3 = 2 + 3 /\ math_utils.multiply 4 5 = 4 * 5.
Proof.
  split.
  - apply (proj1 (add_multiply_wrap 2 3)). vm_compute. split; congruence.
  - apply (proj2 (add_multiply_wrap 4 5)). vm_compute. split; congruence.
Defined.

(** ** Creating and presenting *)

Section CreatePresent.

Variables (id_ : Z) (name_ : list ascii) (value_ : spec_float).


(** X19.  Two successful creations in a row return different addresses,
    and afterwards both records are live, each with its own fields: the
    second creation does not touch the first record. *)
Theorem create_two_distinct junk1 junk2 id2 name2 value2 w :
  wf_name junk1 -> wf_name junk2 ->
  exists l1 l2 w',
    (p1 ← create_item (Some junk1) id_ name_ value_;
     p2 ← create_item (Some junk2) id2 name2 value2;
     mret (p1, p2)) w = Some ((Addr l1, Addr l2), w') /\
    l1 <> l2 /\
    heap w' !! l1 = Some (stored_item id_ name_ value_) /\
    heap w' !! l2 = Some (stored_item id2 name2 value2).
Proof.
  intros H1 H2.
  rewrite run_create by assumption. rewrite run_create by assumption.
  eexists _, _, _. split; [reflexivity|].
  set (w1 := alloc_world (stored_item id_ name_ value_) w).
  assert (Hfirst : heap w1 !! addr_of w = Some (stored_item id_ name_ value_))
    by apply alloc_world_new.
  split; [|split].
  - intros Heq. rewrite Heq, addr_of_not_live in Hfirst. discriminate.
  - now apply alloc_world_old.
  - apply alloc_world_new.
Qed.

End CreatePresent.


Lemma create_two_distinct_witness :
  exists l1 l2 w',
    (p1 ← create_item (Some junk_block) 1 test_name test_value;
     p2 ← create_item (Some junk_block') 5 long_name (float_lit 1 0);
     mret (p1, p2)) empty_world = Some ((Addr l1, Addr l2), w') /\
    l1 <> l2 /\
    heap w' !! l1 = Some (stored_item 1 test_name test_value) /\
    heap w' !! l2 = Some (stored_item 5 long_name (float_lit 1 0)).
Proof.
  apply (create_two_distinct 1 test_name test_value junk_block junk_block'
           5 long_name (float_lit 1 0) empty_world); reflexivity.
Defined.
